(** * util_create_label_masks: one binary mask per label of a segmentation

    A shallow embedding of [src/utils/util_create_label_masks.py] and the
    properties of its label selection, masks, file names and manifest.

    Modelling choices, all visible in the definitions below:
    - a float64 voxel value is represented by the exact rational it denotes
      ([Qc], rationals in lowest terms, so that [=] is numeric equality);
      NaN and the infinities are outside the model;
    - the conversion of a Python [int] to float64 is taken as the identity,
      which it is for magnitudes up to [2^53] ([f64_exact]); beyond, numpy
      rounds the [int], and the properties that depend on which entries of
      a caller's list are kept are stated for lists within that range;
    - an n-dimensional array is its shape together with its elements in
      row-major order;
    - the effects of the function (files saved, lines printed) are the list
      of events it emits, in program order; a file system is obtained by
      replaying the events;
    - writes do not fail. *)

From Stdlib Require Import QArith Qcanon Ascii.
From stdpp Require Import base numbers list strings gmap sorting pretty.

Close Scope Qc_scope.
Close Scope Q_scope.

(** ** Python numbers *)

(** A label is either a Python [int] (an entry of the caller's list) or a
    float64 scalar (an element of the array [np.unique] returns). *)
Inductive pynum :=
  | PyInt (n : Z)
  | PyFloat (x : Qc).

(** The value numpy compares with when [v] meets a float64 array. For an
    [int] it is the integer itself: that is the float64 numpy converts it
    to when its magnitude is at most [2^53]; the rounding of larger
    integers is not modelled. *)
Definition float (v : pynum) : Qc :=
  match v with
  | PyInt n => Qc_of_Z n
  | PyFloat x => x
  end.

(** Truncation of a rational toward zero. *)
Definition Qc_trunc (x : Qc) : Z := (Qnum x ÷ Z.pos (Qden x))%Z.

(** [int(v)]: the identity on an [int], truncation toward zero on a float. *)
Definition int (v : pynum) : Z :=
  match v with
  | PyInt n => n
  | PyFloat x => Qc_trunc x
  end.

(** [str(n)] for an [int]: plain decimal, a leading minus sign for negatives. *)
Definition str (n : Z) : string := pretty n.

(** ["%d" % v]: the integer part of [v] in plain decimal. *)
Definition fmt_d (v : pynum) : string := str (int v).

(** ** numpy *)

Module np.

Record ndarray (A : Type) := NdArray { shape : list nat; flat : list A }.
Arguments NdArray {A} shape flat.
Arguments shape {A} _.
Arguments flat {A} _.

(** Offset of a multi-index in row-major order; [None] when the index has
    the wrong rank or is out of bounds. *)
Fixpoint ravel (shp idx : list nat) : option nat :=
  match shp, idx with
  | [], [] => Some 0
  | n :: shp', i :: idx' =>
      if decide (i < n)
      then (λ r, i * foldr Nat.mul 1 shp' + r) <$> ravel shp' idx'
      else None
  | _, _ => None
  end.

(** [a[idx]] *)
Definition item {A} (a : ndarray A) (idx : list nat) : option A :=
  ravel (shape a) idx ≫= λ i, flat a !! i.

Definition map {A B} (f : A → B) (a : ndarray A) : ndarray B :=
  NdArray (shape a) (f <$> flat a).

(** [a == v]: elementwise comparison with a scalar. *)
Definition eq_scalar (a : ndarray Qc) (v : pynum) : ndarray bool :=
  map (λ x, bool_decide (x = float v)) a.

(** [a.astype(int)] on a boolean array. *)
Definition astype_int (a : ndarray bool) : ndarray Z :=
  map (λ b : bool, if b then 1%Z else 0%Z) a.

(** [np.unique(a)]: the sorted distinct elements of the flattened array. *)
Definition unique (a : ndarray Qc) : list Qc :=
  merge_sort Qcle (remove_dups (flat a)).

(** [v in u] for a one-dimensional array [u]: [(u == v).any()]. *)
Definition contains (u : list Qc) (v : pynum) : bool :=
  bool_decide (float v ∈ u).

(** [u[u != 0]] *)
Definition nonzero (u : list Qc) : list Qc :=
  filter (λ x, x ≠ Q2Qc 0) u.

(** Rows written by [np.savetxt(_, X, fmt="%d")] for one-dimensional [X]. *)
Definition savetxt_rows (X : list pynum) : list string := fmt_d <$> X.

End np.

(** ** nibabel *)

Module nib.

(** The NIfTI-1 header, kept as its named fields. *)
Definition Nifti1Header : Type := list (string * list Z).

Record Nifti1Image (A : Type) := mkNifti1Image {
  dataobj : np.ndarray A;
  affine : list (list Qc);
  header : Nifti1Header
}.
Arguments mkNifti1Image {A} dataobj affine header.
Arguments dataobj {A} _.
Arguments affine {A} _.
Arguments header {A} _.

(** [img.get_fdata()] *)
Definition get_fdata (img : Nifti1Image Qc) : np.ndarray Qc := dataobj img.

Inductive file :=
  | NiftiFile (img : Nifti1Image Qc)
  | TextFile (rows : list string).

(** [nib.load(path)]; [None] stands for the exception nibabel raises when
    the path is missing or is not an image. *)
Definition load (fs : gmap string file) (path : string)
    : option (Nifti1Image Qc) :=
  match fs !! path with
  | Some (NiftiFile img) => Some img
  | _ => None
  end.

(** The image as stored by [nib.save]. *)
Definition stored (img : Nifti1Image Z) : file :=
  NiftiFile (mkNifti1Image (np.map Qc_of_Z (dataobj img)) (affine img) (header img)).

End nib.

(** ** Effects *)

Inductive event :=
  | NibSave (img : nib.Nifti1Image Z) (fname : string)
  | SaveTxt (fname : string) (rows : list string)
  | Print (msg : string).

Definition write_event (fs : gmap string nib.file) (e : event)
    : gmap string nib.file :=
  match e with
  | NibSave img fname => <[fname := nib.stored img]> fs
  | SaveTxt fname rows => <[fname := nib.TextFile rows]> fs
  | Print _ => fs
  end.

(** The file system after the events happened, oldest first. *)
Definition fs_after (fs : gmap string nib.file) (evs : list event)
    : gmap string nib.file :=
  foldl write_event fs evs.

(** The [nib.save] calls of a trace, in order. *)
Definition saves (evs : list event) : list (nib.Nifti1Image Z * string) :=
  omap (λ e, match e with NibSave img f => Some (img, f) | _ => None end) evs.

(** The [np.savetxt] calls of a trace, in order. *)
Definition savetxts (evs : list event) : list (string * list string) :=
  omap (λ e, match e with SaveTxt f rows => Some (f, rows) | _ => None end) evs.

(** ** The program *)

Section program.

Variable seg_nii : nib.Nifti1Image Qc.
Variable out_prefix : string.

Let seg_data := nib.get_fdata seg_nii.

(** Lines 31-33: the image saved for [label]. *)
Definition out_nii (label : pynum) : nib.Nifti1Image Z :=
  let out_data := np.astype_int (np.eq_scalar seg_data label) in
  nib.mkNifti1Image out_data (nib.affine seg_nii) (nib.header seg_nii).

(** Line 34. *)
Definition out_fname (label : pynum) : string :=
  out_prefix +:+ str (int label) +:+ ".nii.gz".

(** Lines 31-36: the body of the loop. *)
Definition process_label (label : pynum) : list event :=
  [ NibSave (out_nii label) (out_fname label);
    Print ("Saved label " +:+ str (int label) +:+ " to " +:+ out_fname label) ].

(** Lines 30-36. *)
Fixpoint label_loop (labels : list pynum) : list event :=
  match labels with
  | [] => []
  | label :: rest => process_label label ++ label_loop rest
  end.

(** Line 39. *)
Definition out_list : string := out_prefix +:+ "List.csv".

(** Lines 39-41. *)
Definition save_list (labels : list pynum) : list event :=
  [ SaveTxt out_list (np.savetxt_rows labels);
    Print ("Saved list of labels to " +:+ out_list) ].

(** Lines 22-23. *)
Definition labels_auto : list pynum :=
  PyFloat <$> np.nonzero (np.unique seg_data).

(** Line 25. *)
Definition labels_explicit (label_list : list Z) : list pynum :=
  PyInt <$> filter (λ lbl, np.contains (np.unique seg_data) (PyInt lbl)) label_list.

(** Lines 18-41, after the image is loaded. *)
Definition create_label_masks (label_list : option (list Z)) : list event :=
  match label_list with
  | None =>
      let labels := labels_auto in
      label_loop labels ++ save_list labels
  | Some label_list =>
      let labels := labels_explicit label_list in
      if decide (length labels = 0)
      then [ Print "No specified labels found in segmentation." ]
      else label_loop labels ++ save_list labels
  end.

End program.

(** [util_create_label_masks(seg_file, out_prefix, label_list)] run on the
    file system [fs]: [None] when loading raises, else the events emitted
    up to the normal return. *)
Definition util_create_label_masks (fs : gmap string nib.file)
    (seg_file out_prefix : string) (label_list : option (list Z))
    : option (list event) :=
  seg_nii ← nib.load fs seg_file;
  Some (create_label_masks seg_nii out_prefix label_list).

(** The labels the loop runs over: the value of [labels] at line 30. *)
Definition labels_of (seg_nii : nib.Nifti1Image Qc) (label_list : option (list Z))
    : list pynum :=
  match label_list with
  | None => labels_auto seg_nii
  | Some label_list => labels_explicit seg_nii label_list
  end.

(** The pair [nib.save] receives for a label. *)
Definition save_of (seg_nii : nib.Nifti1Image Qc) (out_prefix : string)
    (label : pynum) : nib.Nifti1Image Z * string :=
  (out_nii seg_nii label, out_fname out_prefix label).

(** ** Numerals *)

(** Decimal digits, and numerals without sign, padding or fraction. *)
Definition is_digit (c : ascii) : bool :=
  bool_decide (c ∈ ["0"; "1"; "2"; "3"; "4"; "5"; "6"; "7"; "8"; "9"]%char).

Fixpoint all_digits (s : string) : bool :=
  match s with
  | EmptyString => true
  | String c r => is_digit c && all_digits r
  end.

(** A digit other than zero followed by digits. *)
Definition is_positive_numeral (s : string) : bool :=
  match s with
  | EmptyString => false
  | String c r => is_digit c && negb (bool_decide (c = "0"%char)) && all_digits r
  end.

(** ["0"], or a positive numeral with an optional minus sign in front. *)
Definition is_plain_integer (s : string) : bool :=
  match s with
  | String "-" r => is_positive_numeral r
  | _ => bool_decide (s = "0") || is_positive_numeral s
  end.

(** The digit a character stands for: the characters of codes 48 to 57. *)
Definition digit_value (c : ascii) : option N :=
  let code := N_of_ascii c in
  if decide (48 ≤ code ≤ 57)%N then Some (code - 48)%N else None.

(** The number a string of digits stands for, read from the left, after
    the digits [acc] already read. *)
Fixpoint digits_value (acc : N) (s : string) : option N :=
  match s with
  | EmptyString => Some acc
  | String c r =>
      match digit_value c with
      | Some d => digits_value (10 * acc + d) r
      | None => None
      end
  end.

(** The integer a decimal numeral stands for: digits, with an optional
    minus sign in front. It does not use [str]. *)
Definition decimal_value (s : string) : option Z :=
  match s with
  | EmptyString => None
  | String "-" EmptyString => None
  | String "-" r => (λ n, - Z.of_N n)%Z <$> digits_value 0 r
  | _ => Z.of_N <$> digits_value 0 s
  end.

(** ** Integers that float64 holds exactly *)

(** Every integer of magnitude up to [2^53] is a float64, so that numpy's
    conversion of such a Python [int] is the identity, as [float] has it. *)
Definition f64_exact (n : Z) : Prop := (Z.abs n ≤ 2 ^ 53)%Z.

(** The caller's list, when there is one, holds such integers only. *)
Definition exact_labels (label_list : option (list Z)) : Prop :=
  match label_list with
  | None => True
  | Some label_list => Forall f64_exact label_list
  end.

(** ** Examples of inputs *)

(** The grid [[0,1],[2,1]] with an identity affine. *)
Definition example_seg : nib.Nifti1Image Qc :=
  nib.mkNifti1Image
    (np.NdArray [2; 2] (Qc_of_Z <$> [0; 1; 2; 1]%Z))
    ((λ r : list Z, Qc_of_Z <$> r)
       <$> [[1; 0; 0; 0]; [0; 1; 0; 0]; [0; 0; 1; 0]; [0; 0; 0; 1]]%Z)
    [("datatype", [2%Z]); ("bitpix", [8%Z])].

Definition example_fs : gmap string nib.file :=
  {[ "seg.nii.gz" := nib.NiftiFile example_seg ]}.

(** A grid of zeros. *)
Definition example_blank : nib.Nifti1Image Qc :=
  nib.mkNifti1Image (np.NdArray [3] (Qc_of_Z <$> [0; 0; 0]%Z)) [] [].

(** The grid [0, 1.2, 1.7, -0.5]. *)
Definition example_fractional : nib.Nifti1Image Qc :=
  nib.mkNifti1Image
    (np.NdArray [4] [Qc_of_Z 0; Q2Qc (6 # 5); Q2Qc (17 # 10); Q2Qc (-1 # 2)])
    [] [].

(** ** Observations used by the further properties *)

(** The paths a trace writes to, in order. *)
Definition paths_written (evs : list event) : list string :=
  omap (λ e, match e with
             | NibSave _ f => Some f
             | SaveTxt f _ => Some f
             | Print _ => None
             end) evs.

(** A float64 value that is an integer. *)
Definition is_integral (x : Qc) : Prop := x = Qc_of_Z (Qc_trunc x).

(** A file system whose segmentation is named like the mask of label 1. *)
Definition example_clash_fs : gmap string nib.file :=
  {[ "seg_1.nii.gz" := nib.NiftiFile example_seg;
     "notes.txt" := nib.TextFile ["keep"] ]}.

(** * Properties *)

(** ** Numbers *)

Lemma Qc_of_Z_inj (a b : Z) : Qc_of_Z a = Qc_of_Z b → a = b.
Proof. intros H. apply (f_equal (λ x : Qc, Qnum x)) in H. exact H. Qed.

Lemma Qc_trunc_of_Z (n : Z) : Qc_trunc (Qc_of_Z n) = n.
Proof. unfold Qc_trunc. simpl. apply Z.quot_1_r. Qed.

Lemma Qcle_of_Z_l (z : Z) (x : Qc) :
  Qcle (Qc_of_Z z) x ↔ (z * Z.pos (Qden x) ≤ Qnum x)%Z.
Proof. unfold Qcle, Qle. simpl. by rewrite Z.mul_1_r. Qed.

Lemma Qcle_of_Z_r (z : Z) (x : Qc) :
  Qcle x (Qc_of_Z z) ↔ (Qnum x ≤ z * Z.pos (Qden x))%Z.
Proof. unfold Qcle, Qle. simpl. by rewrite Z.mul_1_r. Qed.

Lemma Qclt_of_Z_l (z : Z) (x : Qc) :
  Qclt (Qc_of_Z z) x ↔ (z * Z.pos (Qden x) < Qnum x)%Z.
Proof. unfold Qclt, Qlt. simpl. by rewrite Z.mul_1_r. Qed.

Lemma Qclt_of_Z_r (z : Z) (x : Qc) :
  Qclt x (Qc_of_Z z) ↔ (Qnum x < z * Z.pos (Qden x))%Z.
Proof. unfold Qclt, Qlt. simpl. by rewrite Z.mul_1_r. Qed.

(** [Qc_trunc] rounds toward zero: the result lies between zero and [x],
    less than one away from [x]. *)
Lemma Qc_trunc_nonneg (x : Qc) :
  Qcle (Qc_of_Z 0) x →
  Qcle (Qc_of_Z (Qc_trunc x)) x ∧ Qclt x (Qc_of_Z (Qc_trunc x + 1)).
Proof.
  rewrite Qcle_of_Z_l, Qcle_of_Z_l, Qclt_of_Z_r. unfold Qc_trunc.
  set (a := Qnum x). set (b := Z.pos (Qden x)). intros Ha.
  assert (Hb : (0 < b)%Z) by (unfold b; lia).
  assert (H0 : (0 ≤ a)%Z) by lia.
  rewrite Z.quot_div_nonneg by lia.
  pose proof (Z.div_mod a b ltac:(lia)).
  pose proof (Z.mod_pos_bound a b Hb). nia.
Qed.

Lemma Qc_trunc_nonpos (x : Qc) :
  Qcle x (Qc_of_Z 0) →
  Qclt (Qc_of_Z (Qc_trunc x - 1)) x ∧ Qcle x (Qc_of_Z (Qc_trunc x)).
Proof.
  rewrite Qcle_of_Z_r, Qcle_of_Z_r, Qclt_of_Z_l. unfold Qc_trunc.
  set (a := Qnum x). set (b := Z.pos (Qden x)). intros Ha.
  assert (Hb : (0 < b)%Z) by (unfold b; lia).
  assert (H0 : (a ≤ 0)%Z) by lia.
  replace a with (- (- a))%Z by lia.
  rewrite Z.quot_opp_l by lia.
  rewrite Z.quot_div_nonneg by lia.
  pose proof (Z.div_mod (- a) b ltac:(lia)).
  pose proof (Z.mod_pos_bound (- a) b Hb). nia.
Qed.

(** ** Strings *)

Lemma string_length_app (s t : string) :
  String.length (s +:+ t) = String.length s + String.length t.
Proof. induction s as [|c s IH]; simpl; [done|]. by rewrite IH. Qed.

Lemma string_app_inj_r (t s1 s2 : string) : s1 +:+ t = s2 +:+ t → s1 = s2.
Proof.
  revert s2. induction s1 as [|c s1 IH]; intros [|d s2] H; simpl in *.
  - done.
  - apply (f_equal String.length) in H.
    rewrite !string_length_app in H. simpl in H. lia.
  - apply (f_equal String.length) in H.
    rewrite !string_length_app in H. simpl in H. lia.
  - injection H as -> H. f_equal. by apply IH.
Qed.

Lemma pretty_N_char_digit (x : N) : is_digit (pretty_N_char x) = true.
Proof. unfold pretty_N_char. by repeat case_match. Qed.

Lemma pretty_N_go_positive (x : N) (s : string) :
  (0 < x)%N → all_digits s = true →
  is_positive_numeral (pretty_N_go x s) = true.
Proof.
  revert s. induction (N.lt_wf_0 x) as [x _ IH]; intros s Hx Hs.
  rewrite pretty_N_go_step by done.
  destruct (decide (x `div` 10 = 0)%N) as [Hq|Hq].
  - rewrite Hq, pretty_N_go_0. simpl.
    rewrite pretty_N_char_digit, Hs. simpl.
    assert (x < 10)%N by (apply N.div_small_iff in Hq; lia).
    rewrite N.mod_small by done.
    assert (x = 1 ∨ x = 2 ∨ x = 3 ∨ x = 4 ∨ x = 5 ∨ x = 6
          ∨ x = 7 ∨ x = 8 ∨ x = 9)%N as Hc by lia.
    by repeat (destruct Hc as [->|Hc]; [done|]); subst.
  - apply IH.
    + apply N.div_lt; lia.
    + by apply N.neq_0_lt_0.
    + simpl. by rewrite pretty_N_char_digit, Hs.
Qed.

Lemma pretty_positive_numeral (p : positive) :
  is_positive_numeral (pretty p) = true.
Proof.
  unfold pretty, pretty_positive, pretty, pretty_N.
  case_decide; [done|]. by apply pretty_N_go_positive.
Qed.

(** [str] renders an integer without padding, fraction or exponent. *)
Lemma str_plain_integer (n : Z) : is_plain_integer (str n) = true.
Proof.
  destruct n as [|p|p]; unfold str, pretty, pretty_Z; [done| |].
  - pose proof (pretty_positive_numeral p) as H.
    destruct (pretty p) as [|c r] eqn:E; [done|].
    unfold is_plain_integer.
    assert (c ≠ "-"%char).
    { intros ->. simpl in H. done. }
    repeat case_match; simplify_eq; try done; by rewrite H, orb_true_r.
  - simpl. apply pretty_positive_numeral.
Qed.

Lemma str_inj (a b : Z) : str a = str b → a = b.
Proof. apply pretty_Z_inj. Qed.

Lemma digit_value_pretty_N_char (x : N) :
  (x < 10)%N → digit_value (pretty_N_char x) = Some x.
Proof.
  intros Hx.
  assert (x = 0 ∨ x = 1 ∨ x = 2 ∨ x = 3 ∨ x = 4 ∨ x = 5 ∨ x = 6
          ∨ x = 7 ∨ x = 8 ∨ x = 9)%N as Hc by lia.
  by repeat (destruct Hc as [->|Hc]; [done|]); subst.
Qed.

Lemma digits_value_pretty_N_go (x : N) (s : string) :
  digits_value 0 (pretty_N_go x s) = digits_value x s.
Proof.
  revert s. induction (N.lt_wf_0 x) as [x _ IH]; intros s.
  destruct (decide (x = 0%N)) as [->|Hx]; [by rewrite pretty_N_go_0|].
  rewrite pretty_N_go_step by lia.
  rewrite IH by (apply N.div_lt; lia). simpl.
  rewrite digit_value_pretty_N_char by (apply N.mod_lt; lia).
  f_equal. pose proof (N.div_mod x 10). lia.
Qed.

Lemma digits_value_pretty_positive (p : positive) :
  digits_value 0 (pretty p) = Some (N.pos p).
Proof.
  unfold pretty, pretty_positive, pretty, pretty_N.
  case_decide; [done|]. by rewrite digits_value_pretty_N_go.
Qed.

(** Reading back what [str] wrote gives the integer. *)
Lemma decimal_value_str (n : Z) : decimal_value (str n) = Some n.
Proof.
  destruct n as [|p|p]; unfold str, pretty, pretty_Z; [done| |].
  - pose proof (pretty_positive_numeral p) as Hnum.
    pose proof (digits_value_pretty_positive p) as Hval.
    destruct (pretty p) as [|c r] eqn:E; [done|].
    unfold decimal_value.
    assert (c ≠ "-"%char) by (intros ->; done).
    rewrite Hval.
    repeat case_match; simplify_eq; done.
  - pose proof (pretty_positive_numeral p) as Hnum.
    pose proof (digits_value_pretty_positive p) as Hval.
    destruct (pretty p) as [|c r] eqn:E; [done|].
    change (decimal_value ("-" +:+ String c r))
      with ((λ n, (- Z.of_N n)%Z) <$> digits_value 0 (String c r)).
    by rewrite Hval.
Qed.

(** The integer part of a label that is an integer, whichever way it is
    held. *)
Lemma int_of_integer (L : pynum) (n : Z) :
  L = PyInt n ∨ L = PyFloat (Qc_of_Z n) → int L = n.
Proof. intros [->| ->]; simpl; [done|apply Qc_trunc_of_Z]. Qed.

(** ** Arrays *)

Lemma item_map {A B} (f : A → B) (a : np.ndarray A) (idx : list nat) :
  np.item (np.map f a) idx = f <$> np.item a idx.
Proof.
  unfold np.item, np.map. simpl.
  destruct (np.ravel (np.shape a) idx) as [i|]; simpl; [|done].
  apply list_lookup_fmap.
Qed.

Lemma elem_of_unique (a : np.ndarray Qc) (x : Qc) :
  x ∈ np.unique a ↔ x ∈ np.flat a.
Proof.
  unfold np.unique.
  by rewrite merge_sort_Permutation, elem_of_remove_dups.
Qed.

Lemma NoDup_unique (a : np.ndarray Qc) : NoDup (np.unique a).
Proof.
  unfold np.unique. rewrite merge_sort_Permutation. apply NoDup_remove_dups.
Qed.

Lemma StronglySorted_le_lt (l : list Qc) :
  StronglySorted Qcle l → NoDup l → StronglySorted Qclt l.
Proof.
  induction 1 as [|x l Hl IH Hx]; intros Hnd; [constructor|].
  apply NoDup_cons in Hnd as [Hx' Hnd].
  constructor; [by apply IH|].
  rewrite Forall_forall in Hx |- *. intros y Hy.
  destruct (Qcle_lt_or_eq _ _ (Hx y Hy)) as [?| ->]; [done|].
  by destruct Hx'.
Qed.

Lemma StronglySorted_filter {A} (R : relation A) (P : A → Prop)
    `{∀ x, Decision (P x)} (l : list A) :
  StronglySorted R l → StronglySorted R (filter P l).
Proof.
  induction 1 as [|x l Hl IH Hx]; [constructor|].
  rewrite filter_cons. case_decide; [|done].
  constructor; [done|].
  rewrite Forall_forall in Hx |- *. intros y Hy.
  apply Hx. by apply list_elem_of_filter in Hy as [_ ?].
Qed.

(** [np.unique] returns its values in strictly ascending order. *)
Lemma unique_ascending (a : np.ndarray Qc) : StronglySorted Qclt (np.unique a).
Proof.
  apply StronglySorted_le_lt; [|apply NoDup_unique].
  unfold np.unique. apply StronglySorted_merge_sort; apply _.
Qed.

Lemma contains_unique (a : np.ndarray Qc) (v : pynum) :
  np.contains (np.unique a) v = true ↔ float v ∈ np.flat a.
Proof.
  unfold np.contains. by rewrite bool_decide_eq_true, elem_of_unique.
Qed.

(** ** Traces *)

Section traces.

Variable seg_nii : nib.Nifti1Image Qc.
Variable out_prefix : string.

Lemma saves_label_loop (labels : list pynum) :
  saves (label_loop seg_nii out_prefix labels)
  = save_of seg_nii out_prefix <$> labels.
Proof.
  induction labels as [|L labels IH]; [done|].
  simpl. unfold saves in *. rewrite IH. done.
Qed.

Lemma savetxts_label_loop (labels : list pynum) :
  savetxts (label_loop seg_nii out_prefix labels) = [].
Proof. induction labels as [|L labels IH]; [done|]. exact IH. Qed.

Lemma label_loop_lookup (labels : list pynum) (k : nat) (L : pynum) :
  labels !! k = Some L →
  label_loop seg_nii out_prefix labels !! (2 * k)
    = Some (NibSave (out_nii seg_nii L) (out_fname out_prefix L)) ∧
  label_loop seg_nii out_prefix labels !! (2 * k + 1)
    = Some (Print ("Saved label " +:+ str (int L) +:+ " to "
                   +:+ out_fname out_prefix L)).
Proof.
  revert k. induction labels as [|L' labels IH]; intros [|k] Hk; simplify_eq/=.
  - done.
  - replace (k + S (k + 0)) with (S (2 * k)) by lia.
    replace (k + S (k + 0) + 1) with (S (2 * k + 1)) by lia.
    simpl. by apply IH.
Qed.

(** Past the early return, the trace is the loop followed by the manifest. *)
Lemma create_label_masks_full (label_list : option (list Z)) :
  label_list = None ∨ labels_of seg_nii label_list ≠ [] →
  create_label_masks seg_nii out_prefix label_list
  = label_loop seg_nii out_prefix (labels_of seg_nii label_list)
    ++ save_list out_prefix (labels_of seg_nii label_list).
Proof.
  intros H. destruct label_list as [ll|]; simpl; [|done].
  destruct H as [?|H]; [done|]. simpl in H.
  case_decide as Hlen; [|done].
  by apply nil_length_inv in Hlen.
Qed.

Lemma create_label_masks_early (label_list : list Z) :
  labels_explicit seg_nii label_list = [] →
  create_label_masks seg_nii out_prefix (Some label_list)
  = [ Print "No specified labels found in segmentation." ].
Proof. intros H. simpl. by rewrite H. Qed.

(** In every case the images saved are those of the labels, in order. *)
Lemma saves_create_label_masks (label_list : option (list Z)) :
  saves (create_label_masks seg_nii out_prefix label_list)
  = save_of seg_nii out_prefix <$> labels_of seg_nii label_list.
Proof.
  destruct (decide (label_list = None ∨ labels_of seg_nii label_list ≠ []))
    as [H|H].
  - rewrite create_label_masks_full by done.
    unfold saves. rewrite omap_app. fold (saves (label_loop seg_nii out_prefix
      (labels_of seg_nii label_list))).
    rewrite saves_label_loop. simpl. by rewrite app_nil_r.
  - destruct label_list as [ll|]; [|by destruct H; left].
    assert (labels_explicit seg_nii ll = []) as Hnil.
    { destruct (labels_explicit seg_nii ll) eqn:E; [done|].
      destruct H. right. simpl. by rewrite E. }
    rewrite create_label_masks_early by done. simpl. by rewrite Hnil.
Qed.

End traces.

Lemma util_create_label_masks_loaded (fs : gmap string nib.file)
    (seg_file out_prefix : string) (label_list : option (list Z))
    (seg_nii : nib.Nifti1Image Qc) :
  nib.load fs seg_file = Some seg_nii →
  util_create_label_masks fs seg_file out_prefix label_list
  = Some (create_label_masks seg_nii out_prefix label_list).
Proof. intros H. unfold util_create_label_masks. by rewrite H. Qed.

(** ** Labels *)

Lemma labels_explicit_filter (seg_nii : nib.Nifti1Image Qc) (label_list : list Z) :
  labels_explicit seg_nii label_list
  = PyInt <$> filter (λ n, Qc_of_Z n ∈ np.flat (nib.get_fdata seg_nii)) label_list.
Proof.
  unfold labels_explicit. f_equal. apply list_filter_iff. intros n.
  rewrite Is_true_true. apply (contains_unique _ (PyInt n)).
Qed.

Lemma elem_of_labels_auto (seg_nii : nib.Nifti1Image Qc) (x : Qc) :
  x ∈ np.nonzero (np.unique (nib.get_fdata seg_nii))
  ↔ x ∈ np.flat (nib.get_fdata seg_nii) ∧ x ≠ Q2Qc 0.
Proof.
  unfold np.nonzero. rewrite list_elem_of_filter, elem_of_unique. tauto.
Qed.

(** ** File names and the file system *)

Lemma int_toward_zero (L : pynum) :
  (Qcle (Qc_of_Z 0) (float L) →
     Qcle (Qc_of_Z (int L)) (float L) ∧ Qclt (float L) (Qc_of_Z (int L + 1))) ∧
  (Qcle (float L) (Qc_of_Z 0) →
     Qclt (Qc_of_Z (int L - 1)) (float L) ∧ Qcle (float L) (Qc_of_Z (int L))).
Proof.
  destruct L as [n|x]; simpl.
  - pose proof (Qc_trunc_nonneg (Qc_of_Z n)) as Hpos.
    pose proof (Qc_trunc_nonpos (Qc_of_Z n)) as Hneg.
    rewrite Qc_trunc_of_Z in Hpos, Hneg. done.
  - split; [apply Qc_trunc_nonneg | apply Qc_trunc_nonpos].
Qed.

Lemma out_fname_inj (out_prefix : string) (L1 L2 : pynum) :
  out_fname out_prefix L1 = out_fname out_prefix L2 → int L1 = int L2.
Proof.
  unfold out_fname. intros H.
  apply String.app_inj, string_app_inj_r in H. by apply str_inj.
Qed.

Lemma out_list_not_fname (out_prefix : string) (L : pynum) :
  out_list out_prefix ≠ out_fname out_prefix L.
Proof.
  unfold out_list, out_fname. intros H. apply String.app_inj in H.
  pose proof (str_plain_integer (int L)) as Hp.
  destruct (str (int L)) as [|c r]; [done|].
  injection H as <- _. done.
Qed.

Lemma length_filter_fmap {A B} (f : A → B) (P : B → Prop) (Q : A → Prop)
    `{∀ y, Decision (P y)} `{∀ x, Decision (Q x)} (l : list A) :
  (∀ x, P (f x) ↔ Q x) →
  length (filter P (f <$> l)) = length (filter Q l).
Proof.
  intros HPQ. induction l as [|x l IH]; [done|].
  rewrite fmap_cons, !filter_cons.
  destruct (decide (P (f x))) as [HP|HP], (decide (Q x)) as [HQ|HQ];
    simpl; rewrite ?IH; try done.
  - destruct HQ. by apply HPQ.
  - destruct HP. by apply HPQ.
Qed.

Section files.

Variable seg_nii : nib.Nifti1Image Qc.
Variable out_prefix : string.

Lemma fs_after_app (fs : gmap string nib.file) (evs1 evs2 : list event) :
  fs_after fs (evs1 ++ evs2) = fs_after (fs_after fs evs1) evs2.
Proof. apply foldl_app. Qed.

(** After the loop, a path holds the last mask saved under it. *)
Lemma fs_after_label_loop (labels : list pynum) (p : string) (X : nib.file) :
  (∀ L, L ∈ labels → out_fname out_prefix L = p →
        nib.stored (out_nii seg_nii L) = X) →
  ∀ fs : gmap string nib.file,
    fs_after fs (label_loop seg_nii out_prefix labels) !! p
    = if decide (p ∈ out_fname out_prefix <$> labels) then Some X else fs !! p.
Proof.
  induction labels as [|L labels IH]; intros HX fs.
  - done.
  - rewrite fmap_cons. cbn [label_loop]. rewrite fs_after_app.
    rewrite IH by (intros L' ?; apply HX; by right).
    unfold process_label, fs_after. simpl.
    case_decide as H1; case_decide as H2; try done.
    + destruct H2. by right.
    + destruct (decide (out_fname out_prefix L = p)) as [Hp|Hp].
      * rewrite Hp, lookup_insert_eq. f_equal. apply HX; [left|done].
      * apply elem_of_cons in H2 as [?|?]; [by destruct Hp|by destruct H1].
    + rewrite lookup_insert_ne; [done|].
      intros Hp. destruct H2. rewrite Hp. left.
Qed.

End files.

(** ** The claims *)

(** C1. For every loaded voxel grid and every processed label [L], the mask
    saved for [L] has the grid's shape and holds, at every voxel position
    [v], 1 if the grid's value at [v] equals [L] exactly and 0 otherwise;
    a caller's list is taken within the integers float64 holds exactly. *)
Theorem mask_correct (fs : gmap string nib.file) (seg_file out_prefix : string)
    (label_list : option (list Z)) (seg_nii : nib.Nifti1Image Qc)
    (k : nat) (L : pynum) :
  nib.load fs seg_file = Some seg_nii →
  exact_labels label_list →
  labels_of seg_nii label_list !! k = Some L →
  ∃ evs img fname,
    util_create_label_masks fs seg_file out_prefix label_list = Some evs ∧
    saves evs !! k = Some (img, fname) ∧
    np.shape (nib.dataobj img) = np.shape (nib.get_fdata seg_nii) ∧
    ∀ v : list nat,
      np.item (nib.dataobj img) v
      = (λ x, if decide (x = match L with
                               | PyInt n => Qc_of_Z n
                               | PyFloat y => y
                               end)
              then 1%Z else 0%Z)
          <$> np.item (nib.get_fdata seg_nii) v.
Proof.
  intros Hload _ HL.
  eexists _, (out_nii seg_nii L), (out_fname out_prefix L).
  split; [by apply util_create_label_masks_loaded|].
  split; [|split].
  - rewrite saves_create_label_masks, list_lookup_fmap, HL. done.
  - done.
  - intros v. unfold out_nii, np.astype_int, np.eq_scalar. simpl.
    rewrite !item_map.
    destruct (np.item (nib.get_fdata seg_nii) v) as [x|]; simpl; [|done].
    f_equal. destruct L as [n|y]; simpl; case_bool_decide; case_decide; done.
Qed.

(** On the grid [[0,1],[2,1]] with the list [2, 5], the first mask saved
    is [[0,0],[1,0]]. *)
Lemma mask_correct_witness :
  ∃ evs img fname,
    util_create_label_masks example_fs "seg.nii.gz" "out_" (Some [2; 5]%Z)
      = Some evs ∧
    saves evs !! 0 = Some (img, fname) ∧
    np.shape (nib.dataobj img) = [2; 2] ∧
    np.item (nib.dataobj img) [0; 0] = Some 0%Z ∧
    np.item (nib.dataobj img) [0; 1] = Some 0%Z ∧
    np.item (nib.dataobj img) [1; 0] = Some 1%Z ∧
    np.item (nib.dataobj img) [1; 1] = Some 0%Z.
Proof.
  destruct (mask_correct example_fs "seg.nii.gz" "out_" (Some [2; 5]%Z)
              example_seg 0 (PyInt 2))
    as (evs & img & fname & Hrun & Hsave & Hshape & Hmask).
  - vm_compute; reflexivity.
  - unfold exact_labels, f64_exact.
    apply (bool_decide_unpack _). vm_compute. exact I.
  - vm_compute; reflexivity.
  - exists evs, img, fname.
    split; [exact Hrun|]. split; [exact Hsave|]. split; [exact Hshape|].
    rewrite !Hmask. vm_compute. auto.
Defined.

(** C2. Every volume saved for a processed label has the source volume's
    shape, affine and header, in the image handed to [nib.save] and in the
    file it stores; one volume is saved per processed label. *)
Theorem mask_metadata (fs : gmap string nib.file) (seg_file out_prefix : string)
    (label_list : option (list Z)) (seg_nii : nib.Nifti1Image Qc) :
  nib.load fs seg_file = Some seg_nii →
  ∃ evs,
    util_create_label_masks fs seg_file out_prefix label_list = Some evs ∧
    length (saves evs) = length (labels_of seg_nii label_list) ∧
    ∀ img fname, (img, fname) ∈ saves evs →
      (np.shape (nib.dataobj img) = np.shape (nib.dataobj seg_nii) ∧
       nib.affine img = nib.affine seg_nii ∧
       nib.header img = nib.header seg_nii) ∧
      ∃ img', nib.stored img = nib.NiftiFile img' ∧
        np.shape (nib.dataobj img') = np.shape (nib.dataobj seg_nii) ∧
        nib.affine img' = nib.affine seg_nii ∧
        nib.header img' = nib.header seg_nii.
Proof.
  intros Hload. eexists. split; [by apply util_create_label_masks_loaded|].
  rewrite saves_create_label_masks. split; [by rewrite length_fmap|].
  intros img fname Hin.
  apply list_elem_of_fmap in Hin as (L & [= -> ->] & _).
  split; [done|]. by eexists.
Qed.

Lemma mask_metadata_witness :
  ∃ evs,
    util_create_label_masks example_fs "seg.nii.gz" "out_" None = Some evs ∧
    length (saves evs) = length (labels_of example_seg None) ∧
    ∀ img fname, (img, fname) ∈ saves evs →
      (np.shape (nib.dataobj img) = np.shape (nib.dataobj example_seg) ∧
       nib.affine img = nib.affine example_seg ∧
       nib.header img = nib.header example_seg) ∧
      ∃ img', nib.stored img = nib.NiftiFile img' ∧
        np.shape (nib.dataobj img') = np.shape (nib.dataobj example_seg) ∧
        nib.affine img' = nib.affine example_seg ∧
        nib.header img' = nib.header example_seg.
Proof.
  apply (mask_metadata example_fs "seg.nii.gz" "out_" None example_seg).
  vm_compute; reflexivity.
Defined.

(** C3. Without a label list, the labels processed are the distinct values
    of the grid other than 0, each once, in ascending order. *)
Theorem auto_labels (fs : gmap string nib.file) (seg_file out_prefix : string)
    (seg_nii : nib.Nifti1Image Qc) :
  nib.load fs seg_file = Some seg_nii →
  ∃ evs (ls : list Qc),
    util_create_label_masks fs seg_file out_prefix None = Some evs ∧
    saves evs = (λ x, save_of seg_nii out_prefix (PyFloat x)) <$> ls ∧
    (∀ x, x ∈ ls ↔ x ∈ np.flat (nib.get_fdata seg_nii) ∧ x ≠ Q2Qc 0) ∧
    (Q2Qc 0 ∉ ls) ∧
    StronglySorted Qclt ls ∧
    NoDup ls.
Proof.
  intros Hload.
  exists (create_label_masks seg_nii out_prefix None),
    (np.nonzero (np.unique (nib.get_fdata seg_nii))).
  split; [by apply util_create_label_masks_loaded|].
  split; [|split; [|split; [|split]]].
  - rewrite saves_create_label_masks. simpl. unfold labels_auto.
    by rewrite <-list_fmap_compose.
  - apply elem_of_labels_auto.
  - rewrite elem_of_labels_auto. tauto.
  - apply StronglySorted_filter, unique_ascending.
  - apply NoDup_filter, NoDup_unique.
Qed.

Lemma auto_labels_witness :
  ∃ evs (ls : list Qc),
    util_create_label_masks example_fs "seg.nii.gz" "out_" None = Some evs ∧
    saves evs = (λ x, save_of example_seg "out_" (PyFloat x)) <$> ls ∧
    (∀ x, x ∈ ls ↔ x ∈ np.flat (nib.get_fdata example_seg) ∧ x ≠ Q2Qc 0) ∧
    (Q2Qc 0 ∉ ls) ∧
    StronglySorted Qclt ls ∧
    NoDup ls.
Proof.
  apply (auto_labels example_fs "seg.nii.gz" "out_" example_seg).
  vm_compute; reflexivity.
Defined.

(** C4. With a label list, within the integers float64 holds exactly, the
    labels processed are the entries of the list whose value occurs in the
    grid, in the list's order. *)
Theorem explicit_labels (fs : gmap string nib.file) (seg_file out_prefix : string)
    (label_list : list Z) (seg_nii : nib.Nifti1Image Qc) :
  nib.load fs seg_file = Some seg_nii →
  Forall f64_exact label_list →
  ∃ evs,
    util_create_label_masks fs seg_file out_prefix (Some label_list) = Some evs ∧
    saves evs
    = (λ n, save_of seg_nii out_prefix (PyInt n))
        <$> filter (λ n, Qc_of_Z n ∈ np.flat (nib.get_fdata seg_nii)) label_list.
Proof.
  intros Hload _. eexists. split; [by apply util_create_label_masks_loaded|].
  rewrite saves_create_label_masks. simpl.
  by rewrite labels_explicit_filter, <-list_fmap_compose.
Qed.

(** On the grid [[0,1],[2,1]] the list [2, 5, 1] gives the masks of 2 and
    of 1, in that order. *)
Lemma explicit_labels_witness :
  ∃ evs,
    util_create_label_masks example_fs "seg.nii.gz" "out_" (Some [2; 5; 1]%Z)
      = Some evs ∧
    saves evs = [ save_of example_seg "out_" (PyInt 2);
                  save_of example_seg "out_" (PyInt 1) ] ∧
    (saves evs).*2 = [ "out_2.nii.gz"; "out_1.nii.gz" ].
Proof.
  destruct (explicit_labels example_fs "seg.nii.gz" "out_" [2; 5; 1]%Z
              example_seg) as (evs & Hrun & Hsaves).
  - vm_compute; reflexivity.
  - unfold f64_exact. apply (bool_decide_unpack _). vm_compute. exact I.
  - exists evs. split; [exact Hrun|]. rewrite Hsaves.
    split; vm_compute; reflexivity.
Defined.

(** C5. With a label list, within the integers float64 holds exactly, none
    of whose values occurs in the grid, the function prints the diagnostic
    and returns normally; nothing is saved and the file system is as
    before. *)
Theorem empty_intersection (fs : gmap string nib.file)
    (seg_file out_prefix : string) (label_list : list Z)
    (seg_nii : nib.Nifti1Image Qc) :
  nib.load fs seg_file = Some seg_nii →
  Forall f64_exact label_list →
  Forall (λ n, Qc_of_Z n ∉ np.flat (nib.get_fdata seg_nii)) label_list →
  ∃ evs,
    util_create_label_masks fs seg_file out_prefix (Some label_list) = Some evs ∧
    evs = [ Print "No specified labels found in segmentation." ] ∧
    saves evs = [] ∧ savetxts evs = [] ∧
    fs_after fs evs = fs.
Proof.
  intros Hload _ Hnone. eexists.
  split; [by apply util_create_label_masks_loaded|].
  rewrite create_label_masks_early; [done|].
  rewrite labels_explicit_filter.
  rewrite (elem_of_nil_inv (filter _ label_list)); [done|].
  rewrite Forall_forall in Hnone.
  intros n [Hin Hn]%list_elem_of_filter. by apply (Hnone n).
Qed.

Lemma empty_intersection_witness :
  ∃ evs,
    util_create_label_masks example_fs "seg.nii.gz" "out_" (Some [5; 9]%Z)
      = Some evs ∧
    evs = [ Print "No specified labels found in segmentation." ] ∧
    saves evs = [] ∧ savetxts evs = [] ∧
    fs_after example_fs evs = example_fs.
Proof.
  apply (empty_intersection example_fs "seg.nii.gz" "out_" [5; 9]%Z example_seg).
  - vm_compute; reflexivity.
  - unfold f64_exact. apply (bool_decide_unpack _). vm_compute. exact I.
  - apply (bool_decide_unpack _). vm_compute. exact I.
Defined.

(** C6. Past the early return, the trace ends with the write of
    ["{out_prefix}List.csv"] and its report; that write comes after every
    [nib.save]; its rows are, in processing order, the integers embedded in
    the names of the masks saved: row [k] is a plain decimal numeral that
    reads back as the integer part of label [k], and the row of an
    integer-valued label reads back as that label. *)
Theorem manifest_written (fs : gmap string nib.file)
    (seg_file out_prefix : string) (label_list : option (list Z))
    (seg_nii : nib.Nifti1Image Qc) :
  nib.load fs seg_file = Some seg_nii →
  exact_labels label_list →
  label_list = None ∨ labels_of seg_nii label_list ≠ [] →
  ∃ evs pre rows,
    util_create_label_masks fs seg_file out_prefix label_list = Some evs ∧
    evs = pre ++ [ SaveTxt (out_prefix +:+ "List.csv") rows;
                   Print ("Saved list of labels to " +:+ out_prefix +:+ "List.csv") ] ∧
    savetxts pre = [] ∧
    saves pre = saves evs ∧
    rows = (λ L, str (int L)) <$> labels_of seg_nii label_list ∧
    (saves evs).*2
      = (λ row, out_prefix +:+ row +:+ ".nii.gz") <$> rows ∧
    Forall (λ row, is_plain_integer row = true) rows ∧
    Forall2 (λ row L, decimal_value row = Some (int L))
      rows (labels_of seg_nii label_list) ∧
    ∀ k L n, labels_of seg_nii label_list !! k = Some L →
      L = PyInt n ∨ L = PyFloat (Qc_of_Z n) →
      ∃ row, rows !! k = Some row ∧ decimal_value row = Some n.
Proof.
  intros Hload _ Hfull.
  exists (create_label_masks seg_nii out_prefix label_list),
    (label_loop seg_nii out_prefix (labels_of seg_nii label_list)),
    ((λ L, str (int L)) <$> labels_of seg_nii label_list).
  split; [by apply util_create_label_masks_loaded|].
  split; [by rewrite create_label_masks_full|].
  split; [apply savetxts_label_loop|].
  split; [by rewrite saves_create_label_masks, saves_label_loop|].
  split; [done|].
  split; [|split; [|split]].
  - rewrite saves_create_label_masks, <-!list_fmap_compose. done.
  - rewrite Forall_fmap. apply Forall_true. intros L. apply str_plain_integer.
  - apply Forall2_fmap_l, Forall_Forall2_diag, Forall_true.
    intros L. apply decimal_value_str.
  - intros k L n HL Hn. exists (str n).
    rewrite list_lookup_fmap, HL. simpl.
    rewrite (int_of_integer L n Hn). split; [done|apply decimal_value_str].
Qed.

(** On the grid [[0,1],[2,1]] without a list: the masks are saved as
    [out_1.nii.gz] and [out_2.nii.gz], then the manifest with the rows
    [1] and [2]. *)
Lemma manifest_written_witness :
  ∃ evs pre,
    util_create_label_masks example_fs "seg.nii.gz" "out_" None = Some evs ∧
    evs = pre ++ [ SaveTxt "out_List.csv" ["1"; "2"];
                   Print "Saved list of labels to out_List.csv" ] ∧
    savetxts pre = [] ∧
    saves pre = saves evs ∧
    (saves evs).*2 = [ "out_1.nii.gz"; "out_2.nii.gz" ].
Proof.
  destruct (manifest_written example_fs "seg.nii.gz" "out_" None example_seg)
    as (evs & pre & rows & Hrun & Hevs & Hpre & Hsaves & Hrows & Hnames & _).
  - vm_compute; reflexivity.
  - exact I.
  - left; reflexivity.
  - assert (Hlit : rows = ["1"; "2"]) by (rewrite Hrows; vm_compute; reflexivity).
    exists evs, pre. split; [exact Hrun|].
    split; [by rewrite Hevs, Hlit|].
    split; [exact Hpre|]. split; [exact Hsaves|].
    by rewrite Hnames, Hlit.
Defined.

(** C7. The mask of a processed label [L] is saved under
    ["{out_prefix}{int(L)}.nii.gz"]: between the prefix and the suffix
    stands a plain decimal numeral, without padding, that reads back as the
    integer part of [L], which for an integer-valued label is the label. *)
Theorem mask_file_name (fs : gmap string nib.file)
    (seg_file out_prefix : string) (label_list : option (list Z))
    (seg_nii : nib.Nifti1Image Qc) (k : nat) (L : pynum) :
  nib.load fs seg_file = Some seg_nii →
  exact_labels label_list →
  labels_of seg_nii label_list !! k = Some L →
  ∃ evs img,
    util_create_label_masks fs seg_file out_prefix label_list = Some evs ∧
    saves evs !! k
      = Some (img, out_prefix +:+ str (int L) +:+ ".nii.gz") ∧
    is_plain_integer (str (int L)) = true ∧
    decimal_value (str (int L)) = Some (int L) ∧
    ∀ n, L = PyInt n ∨ L = PyFloat (Qc_of_Z n) → int L = n.
Proof.
  intros Hload _ HL. eexists _, (out_nii seg_nii L).
  split; [by apply util_create_label_masks_loaded|].
  split; [|split; [|split]].
  - by rewrite saves_create_label_masks, list_lookup_fmap, HL.
  - apply str_plain_integer.
  - apply decimal_value_str.
  - intros n. apply int_of_integer.
Qed.

(** On the grid [[0,1],[2,1]] with the list [2, 5], the first mask is
    saved as [out_2.nii.gz]. *)
Lemma mask_file_name_witness :
  ∃ evs img,
    util_create_label_masks example_fs "seg.nii.gz" "out_" (Some [2; 5]%Z)
      = Some evs ∧
    saves evs !! 0 = Some (img, "out_2.nii.gz") ∧
    decimal_value "2" = Some 2%Z.
Proof.
  destruct (mask_file_name example_fs "seg.nii.gz" "out_" (Some [2; 5]%Z)
              example_seg 0 (PyInt 2))
    as (evs & img & Hrun & Hsave & _ & Hval & _).
  - vm_compute; reflexivity.
  - unfold exact_labels, f64_exact.
    apply (bool_decide_unpack _). vm_compute. exact I.
  - vm_compute; reflexivity.
  - exists evs, img. split; [exact Hrun|]. split; [exact Hsave|exact Hval].
Defined.

(** C8. A label of the grid that occurs [k] times in the caller's list is
    saved [k] times, each time the same mask under the same path, and has
    [k] rows in the manifest; the path holds that mask afterwards. *)
Theorem duplicate_labels (fs : gmap string nib.file)
    (seg_file out_prefix : string) (label_list : list Z)
    (seg_nii : nib.Nifti1Image Qc) (n : Z) :
  nib.load fs seg_file = Some seg_nii →
  n ∈ label_list →
  Qc_of_Z n ∈ np.flat (nib.get_fdata seg_nii) →
  ∃ evs rows,
    util_create_label_masks fs seg_file out_prefix (Some label_list) = Some evs ∧
    length (filter (λ s, s.2 = out_prefix +:+ str n +:+ ".nii.gz") (saves evs))
      = length (filter (λ m, m = n) label_list) ∧
    (∀ s, s ∈ saves evs → s.2 = out_prefix +:+ str n +:+ ".nii.gz" →
          s.1 = out_nii seg_nii (PyInt n)) ∧
    savetxts evs = [(out_prefix +:+ "List.csv", rows)] ∧
    length (filter (λ row, row = str n) rows)
      = length (filter (λ m, m = n) label_list) ∧
    fs_after fs evs !! (out_prefix +:+ str n +:+ ".nii.gz")
      = Some (nib.stored (out_nii seg_nii (PyInt n))).
Proof.
  intros Hload Hn Hgrid.
  set (present := filter (λ m, Qc_of_Z m ∈ np.flat (nib.get_fdata seg_nii))
                    label_list).
  assert (Hlabels : labels_of seg_nii (Some label_list) = PyInt <$> present).
  { apply labels_explicit_filter. }
  assert (Hin : n ∈ present).
  { apply list_elem_of_filter. done. }
  assert (Hcount : length (filter (λ m, m = n) present)
                   = length (filter (λ m, m = n) label_list)).
  { unfold present. rewrite list_filter_filter. f_equal.
    apply list_filter_iff. intros m. split; [tauto|]. by intros ->. }
  assert (Hfull : create_label_masks seg_nii out_prefix (Some label_list)
    = label_loop seg_nii out_prefix (PyInt <$> present)
      ++ save_list out_prefix (PyInt <$> present)).
  { rewrite create_label_masks_full, Hlabels; [done|].
    right. rewrite Hlabels. intros Hnil. apply fmap_nil_inv in Hnil.
    rewrite Hnil in Hin. by apply elem_of_nil in Hin. }
  exists (create_label_masks seg_nii out_prefix (Some label_list)),
    (np.savetxt_rows (PyInt <$> present)).
  split; [by apply util_create_label_masks_loaded|].
  rewrite saves_create_label_masks, Hlabels.
  split; [|split; [|split; [|split]]].
  - rewrite <-Hcount, <-list_fmap_compose.
    apply length_filter_fmap. intros m. simpl. split.
    + intros H. by apply (out_fname_inj out_prefix (PyInt m) (PyInt n)).
    + by intros ->.
  - intros s (L & -> & (m & -> & _)%list_elem_of_fmap)%list_elem_of_fmap Hs.
    apply (out_fname_inj out_prefix (PyInt m) (PyInt n)) in Hs.
    simpl in Hs. by subst m.
  - rewrite Hfull. unfold savetxts. rewrite omap_app.
    fold (savetxts (label_loop seg_nii out_prefix (PyInt <$> present))).
    by rewrite savetxts_label_loop.
  - rewrite <-Hcount. unfold np.savetxt_rows. rewrite <-list_fmap_compose.
    apply length_filter_fmap. intros m. simpl. unfold fmt_d. simpl. split.
    + apply str_inj.
    + by intros ->.
  - rewrite Hfull, fs_after_app. unfold save_list, fs_after at 1. simpl.
    rewrite lookup_insert_ne by apply out_list_not_fname with (L := PyInt n).
    rewrite (fs_after_label_loop seg_nii out_prefix _ _
               (nib.stored (out_nii seg_nii (PyInt n)))).
    + rewrite decide_True; [done|].
      apply list_elem_of_fmap. exists (PyInt n). split; [done|].
      by apply list_elem_of_fmap_2.
    + intros L (m & -> & _)%list_elem_of_fmap HL.
      apply (out_fname_inj out_prefix (PyInt m) (PyInt n)) in HL.
      simpl in HL. by subst m.
Qed.

Lemma duplicate_labels_witness :
  ∃ evs rows,
    util_create_label_masks example_fs "seg.nii.gz" "out_" (Some [2; 5; 2]%Z)
      = Some evs ∧
    length (filter (λ s, s.2 = "out_" +:+ str 2 +:+ ".nii.gz") (saves evs))
      = length (filter (λ m, m = 2%Z) [2; 5; 2]%Z) ∧
    (∀ s, s ∈ saves evs → s.2 = "out_" +:+ str 2 +:+ ".nii.gz" →
          s.1 = out_nii example_seg (PyInt 2)) ∧
    savetxts evs = [("out_" +:+ "List.csv", rows)] ∧
    length (filter (λ row, row = str 2) rows)
      = length (filter (λ m, m = 2%Z) [2; 5; 2]%Z) ∧
    fs_after example_fs evs !! ("out_" +:+ str 2 +:+ ".nii.gz")
      = Some (nib.stored (out_nii example_seg (PyInt 2))).
Proof.
  apply (duplicate_labels example_fs "seg.nii.gz" "out_" [2; 5; 2]%Z
           example_seg 2%Z).
  - vm_compute; reflexivity.
  - apply (bool_decide_unpack _). vm_compute. exact I.
  - apply (bool_decide_unpack _). vm_compute. exact I.
Defined.

(** C9. Without a label list, on a grid with no value other than 0, the
    function does not return early: nothing is saved by [nib.save], and
    ["{out_prefix}List.csv"] is written with no rows and reported. *)
Theorem auto_no_labels (fs : gmap string nib.file)
    (seg_file out_prefix : string) (seg_nii : nib.Nifti1Image Qc) :
  nib.load fs seg_file = Some seg_nii →
  Forall (λ x, x = Q2Qc 0) (np.flat (nib.get_fdata seg_nii)) →
  ∃ evs,
    util_create_label_masks fs seg_file out_prefix None = Some evs ∧
    evs = [ SaveTxt (out_prefix +:+ "List.csv") [];
            Print ("Saved list of labels to " +:+ out_prefix +:+ "List.csv") ] ∧
    saves evs = [] ∧
    fs_after fs evs = <[out_prefix +:+ "List.csv" := nib.TextFile []]> fs.
Proof.
  intros Hload Hzero. eexists.
  split; [by apply util_create_label_masks_loaded|].
  assert (labels_auto seg_nii = []) as Hnil.
  { unfold labels_auto.
    rewrite (elem_of_nil_inv (np.nonzero _)); [done|].
    intros x [Hx Hne]%elem_of_labels_auto.
    rewrite Forall_forall in Hzero. by apply Hne, Hzero. }
  simpl. rewrite Hnil. done.
Qed.

Lemma auto_no_labels_witness :
  ∃ evs,
    util_create_label_masks {[ "blank.nii" := nib.NiftiFile example_blank ]}
      "blank.nii" "out_" None = Some evs ∧
    evs = [ SaveTxt ("out_" +:+ "List.csv") [];
            Print ("Saved list of labels to " +:+ "out_" +:+ "List.csv") ] ∧
    saves evs = [] ∧
    fs_after {[ "blank.nii" := nib.NiftiFile example_blank ]} evs
      = <["out_" +:+ "List.csv" := nib.TextFile []]>
          {[ "blank.nii" := nib.NiftiFile example_blank ]}.
Proof.
  apply (auto_no_labels {[ "blank.nii" := nib.NiftiFile example_blank ]}
           "blank.nii" "out_" example_blank).
  - vm_compute; reflexivity.
  - apply (bool_decide_unpack _). vm_compute. exact I.
Defined.

(** C10. The file name and the console line of a processed label embed
    [int] of the label, its truncation toward zero, as a decimal numeral
    that reads back as that integer; two processed labels with the same
    truncation are saved under the same path, and the manifest has one row
    per processed label. *)
Theorem truncated_names (fs : gmap string nib.file)
    (seg_file out_prefix : string) (label_list : option (list Z))
    (seg_nii : nib.Nifti1Image Qc) (i j : nat) (L1 L2 : pynum) :
  nib.load fs seg_file = Some seg_nii →
  exact_labels label_list →
  labels_of seg_nii label_list !! i = Some L1 →
  labels_of seg_nii label_list !! j = Some L2 →
  int L1 = int L2 →
  ∃ evs numeral path rows,
    util_create_label_masks fs seg_file out_prefix label_list = Some evs ∧
    numeral = str (int L1) ∧
    is_plain_integer numeral = true ∧
    decimal_value numeral = Some (int L1) ∧
    path = out_prefix +:+ numeral +:+ ".nii.gz" ∧
    evs !! (2 * i) = Some (NibSave (out_nii seg_nii L1) path) ∧
    evs !! (2 * i + 1)
      = Some (Print ("Saved label " +:+ numeral +:+ " to " +:+ path)) ∧
    evs !! (2 * j) = Some (NibSave (out_nii seg_nii L2) path) ∧
    ((Qcle (Qc_of_Z 0) (float L1) →
        Qcle (Qc_of_Z (int L1)) (float L1) ∧
        Qclt (float L1) (Qc_of_Z (int L1 + 1))) ∧
     (Qcle (float L1) (Qc_of_Z 0) →
        Qclt (Qc_of_Z (int L1 - 1)) (float L1) ∧
        Qcle (float L1) (Qc_of_Z (int L1)))) ∧
    savetxts evs = [(out_prefix +:+ "List.csv", rows)] ∧
    length rows = length (labels_of seg_nii label_list).
Proof.
  intros Hload _ H1 H2 Hint.
  assert (Hfull : create_label_masks seg_nii out_prefix label_list
    = label_loop seg_nii out_prefix (labels_of seg_nii label_list)
      ++ save_list out_prefix (labels_of seg_nii label_list)).
  { apply create_label_masks_full. right. intros Hnil. by rewrite Hnil in H1. }
  destruct (label_loop_lookup seg_nii out_prefix _ _ _ H1) as [Hs1 Hp1].
  destruct (label_loop_lookup seg_nii out_prefix _ _ _ H2) as [Hs2 _].
  eexists _, _, _, (np.savetxt_rows (labels_of seg_nii label_list)).
  split; [by apply util_create_label_masks_loaded|].
  split; [reflexivity|].
  split; [apply str_plain_integer|].
  split; [apply decimal_value_str|].
  split; [reflexivity|].
  rewrite Hfull.
  split; [by apply lookup_app_l_Some|].
  split; [by apply lookup_app_l_Some|].
  split.
  { apply lookup_app_l_Some. rewrite Hs2. unfold out_fname. by rewrite Hint. }
  split; [apply int_toward_zero|].
  split.
  - unfold savetxts. rewrite omap_app.
    fold (savetxts (label_loop seg_nii out_prefix (labels_of seg_nii label_list))).
    by rewrite savetxts_label_loop.
  - unfold np.savetxt_rows. by rewrite length_fmap.
Qed.

(** On the grid [0, 1.2, 1.7, -0.5] without a list, the labels 1.2 and
    1.7 are both saved as [out_1.nii.gz], with different masks, and the
    manifest has the rows [0], [1], [1]. *)
Lemma truncated_names_witness :
  ∃ evs img1 img2,
    util_create_label_masks {[ "f.nii" := nib.NiftiFile example_fractional ]}
      "f.nii" "out_" None = Some evs ∧
    int (PyFloat (Q2Qc (6 # 5))) = 1%Z ∧
    int (PyFloat (Q2Qc (17 # 10))) = 1%Z ∧
    int (PyFloat (Q2Qc (-1 # 2))) = 0%Z ∧
    evs !! 2 = Some (NibSave img1 "out_1.nii.gz") ∧
    evs !! 3 = Some (Print "Saved label 1 to out_1.nii.gz") ∧
    evs !! 4 = Some (NibSave img2 "out_1.nii.gz") ∧
    np.flat (nib.dataobj img1) = [0; 1; 0; 0]%Z ∧
    np.flat (nib.dataobj img2) = [0; 0; 1; 0]%Z ∧
    savetxts evs = [("out_List.csv", ["0"; "1"; "1"])].
Proof.
  destruct (truncated_names {[ "f.nii" := nib.NiftiFile example_fractional ]}
              "f.nii" "out_" None example_fractional 1 2
              (PyFloat (Q2Qc (6 # 5))) (PyFloat (Q2Qc (17 # 10))))
    as (evs & numeral & path & rows & Hrun & Hnum & _ & _ & Hpath
        & Hi & Hp & Hj & _ & Hrows & _).
  - vm_compute; reflexivity.
  - exact I.
  - vm_compute; reflexivity.
  - vm_compute; reflexivity.
  - vm_compute; reflexivity.
  - subst numeral path.
    exists evs, (out_nii example_fractional (PyFloat (Q2Qc (6 # 5)))),
      (out_nii example_fractional (PyFloat (Q2Qc (17 # 10)))).
    split; [exact Hrun|].
    split; [vm_compute; reflexivity|].
    split; [vm_compute; reflexivity|].
    split; [vm_compute; reflexivity|].
    split; [exact Hi|].
    split; [exact Hp|].
    split; [exact Hj|].
    split; [vm_compute; reflexivity|].
    split; [vm_compute; reflexivity|].
    vm_compute in Hrun. injection Hrun as <-. vm_compute. reflexivity.
Defined.

(** * Further properties of [util_create_label_masks] *)

(** ** Replaying a trace on a file system *)

Lemma fs_after_snoc (fs : gmap string nib.file) (evs : list event) (e : event) :
  fs_after fs (evs ++ [e]) = write_event (fs_after fs evs) e.
Proof. unfold fs_after. by rewrite foldl_app. Qed.

Lemma paths_written_snoc (evs : list event) (e : event) :
  paths_written (evs ++ [e]) = paths_written evs ++ paths_written [e].
Proof. apply omap_app. Qed.

(** A path the trace does not write keeps its content. *)
Lemma fs_after_frame (evs : list event) (p : string) (fs : gmap string nib.file) :
  p ∉ paths_written evs → fs_after fs evs !! p = fs !! p.
Proof.
  induction evs as [|e evs IH] using rev_ind; [done|].
  rewrite fs_after_snoc, paths_written_snoc, not_elem_of_app.
  intros [Hevs He]. destruct e as [img f|f rows|msg]; simpl in *.
  - rewrite lookup_insert_ne; [by apply IH|].
    intros ->. apply He. left.
  - rewrite lookup_insert_ne; [by apply IH|].
    intros ->. apply He. left.
  - by apply IH.
Qed.

(** ** The paths the program writes *)

Lemma paths_written_label_loop (seg_nii : nib.Nifti1Image Qc)
    (out_prefix : string) (labels : list pynum) :
  paths_written (label_loop seg_nii out_prefix labels)
  = out_fname out_prefix <$> labels.
Proof.
  induction labels as [|L labels IH]; [done|].
  simpl. unfold paths_written in *. by rewrite IH.
Qed.

(** ** Labels and their masks *)

(** The mask depends on the label through its value only. *)
Lemma out_nii_float (seg_nii : nib.Nifti1Image Qc) (L1 L2 : pynum) :
  float L1 = float L2 → out_nii seg_nii L1 = out_nii seg_nii L2.
Proof. intros H. unfold out_nii, np.eq_scalar. by rewrite H. Qed.

(** In both modes a processed label is a value of the grid. *)
Lemma labels_of_in_grid (seg_nii : nib.Nifti1Image Qc)
    (label_list : option (list Z)) (L : pynum) :
  L ∈ labels_of seg_nii label_list →
  float L ∈ np.flat (nib.get_fdata seg_nii).
Proof.
  destruct label_list as [ll|]; simpl.
  - rewrite labels_explicit_filter.
    intros (n & -> & Hn)%list_elem_of_fmap.
    by apply list_elem_of_filter in Hn as [? _].
  - unfold labels_auto. intros (x & -> & Hx)%list_elem_of_fmap.
    by apply elem_of_labels_auto in Hx as [? _].
Qed.

Lemma item_elem_of {A} (a : np.ndarray A) (v : list nat) (x : A) :
  np.item a v = Some x → x ∈ np.flat a.
Proof.
  unfold np.item. destruct (np.ravel (np.shape a) v) as [i|]; simpl; [|done].
  apply list_elem_of_lookup_2.
Qed.

(** X3. Every mask saved has as many elements as the grid, all of them 0
    or 1, and at least one of them 1: no all-zero mask is written. *)
Theorem masks_binary_nonempty (fs : gmap string nib.file)
    (seg_file out_prefix : string) (label_list : option (list Z))
    (seg_nii : nib.Nifti1Image Qc) :
  nib.load fs seg_file = Some seg_nii →
  ∃ evs,
    util_create_label_masks fs seg_file out_prefix label_list = Some evs ∧
    ∀ img fname, (img, fname) ∈ saves evs →
      length (np.flat (nib.dataobj img))
        = length (np.flat (nib.get_fdata seg_nii)) ∧
      Forall (λ b, b = 0%Z ∨ b = 1%Z) (np.flat (nib.dataobj img)) ∧
      1%Z ∈ np.flat (nib.dataobj img).
Proof.
  intros Hload. eexists.
  split; [by apply util_create_label_masks_loaded|].
  rewrite saves_create_label_masks.
  intros img fname (L & [= -> ->] & HL)%list_elem_of_fmap.
  unfold out_nii, np.astype_int, np.eq_scalar, np.map. simpl.
  split; [by rewrite !length_fmap|]. split.
  - rewrite <-list_fmap_compose. apply Forall_fmap, Forall_true.
    intros x. simpl. case_bool_decide; auto.
  - apply labels_of_in_grid in HL.
    rewrite <-list_fmap_compose. apply list_elem_of_fmap.
    exists (float L). split; [|done]. simpl. by rewrite bool_decide_eq_true_2.
Qed.

Lemma masks_binary_nonempty_witness :
  ∃ evs,
    util_create_label_masks example_fs "seg.nii.gz" "out_" (Some [2; 5]%Z)
      = Some evs ∧
    ∀ img fname, (img, fname) ∈ saves evs →
      length (np.flat (nib.dataobj img))
        = length (np.flat (nib.get_fdata example_seg)) ∧
      Forall (λ b, b = 0%Z ∨ b = 1%Z) (np.flat (nib.dataobj img)) ∧
      1%Z ∈ np.flat (nib.dataobj img).
Proof.
  apply (masks_binary_nonempty example_fs "seg.nii.gz" "out_"
           (Some [2; 5]%Z) example_seg).
  vm_compute; reflexivity.
Defined.

(** X4. Without a label list the masks partition the foreground: a voxel
    whose value is not 0 is 1 in exactly one of the masks saved, and a voxel
    whose value is 0 is 0 in all of them. *)
Theorem auto_masks_partition (fs : gmap string nib.file)
    (seg_file out_prefix : string) (seg_nii : nib.Nifti1Image Qc)
    (v : list nat) (x : Qc) :
  nib.load fs seg_file = Some seg_nii →
  np.item (nib.get_fdata seg_nii) v = Some x →
  ∃ evs,
    util_create_label_masks fs seg_file out_prefix None = Some evs ∧
    (x = Q2Qc 0 →
       ∀ img fname, (img, fname) ∈ saves evs →
         np.item (nib.dataobj img) v = Some 0%Z) ∧
    (x ≠ Q2Qc 0 →
       ∃ k img fname,
         saves evs !! k = Some (img, fname) ∧
         np.item (nib.dataobj img) v = Some 1%Z ∧
         ∀ k' img' fname', saves evs !! k' = Some (img', fname') → k' ≠ k →
           np.item (nib.dataobj img') v = Some 0%Z).
Proof.
  intros Hload Hv. eexists.
  split; [by apply util_create_label_masks_loaded|].
  rewrite saves_create_label_masks. simpl. unfold labels_auto.
  rewrite <-list_fmap_compose.
  set (ls := np.nonzero (np.unique (nib.get_fdata seg_nii))).
  assert (Hmask : ∀ y, np.item (nib.dataobj (out_nii seg_nii (PyFloat y))) v
                       = Some (if decide (x = y) then 1%Z else 0%Z)).
  { intros y. unfold out_nii, np.astype_int, np.eq_scalar. simpl.
    rewrite !item_map. fold (nib.get_fdata seg_nii). rewrite Hv. simpl.
    f_equal. case_bool_decide; case_decide; done. }
  split.
  - intros -> img fname (y & [= -> ->] & Hy)%list_elem_of_fmap.
    etrans; [exact (Hmask y)|].
    apply elem_of_labels_auto in Hy as [_ Hy]. by rewrite decide_False.
  - intros Hx.
    assert (x ∈ ls) as Hin.
    { apply elem_of_labels_auto. split; [by eapply item_elem_of|done]. }
    apply list_elem_of_lookup in Hin as [k Hk].
    exists k, (out_nii seg_nii (PyFloat x)), (out_fname out_prefix (PyFloat x)).
    split; [by rewrite list_lookup_fmap, Hk|].
    split; [etrans; [exact (Hmask x)|]; by rewrite decide_True|].
    intros k' img' fname' Hk' Hne.
    rewrite list_lookup_fmap in Hk'.
    destruct (ls !! k') as [y|] eqn:Ey; [|done].
    simpl in Hk'. unfold save_of in Hk'. injection Hk' as <- <-.
    etrans; [exact (Hmask y)|]. rewrite decide_False; [done|].
    intros ->. apply Hne.
    eapply NoDup_lookup; [|done..].
    apply NoDup_filter, NoDup_unique.
Qed.

Lemma auto_masks_partition_witness :
  ∃ evs,
    util_create_label_masks example_fs "seg.nii.gz" "out_" None = Some evs ∧
    (Qc_of_Z 2 = Q2Qc 0 →
       ∀ img fname, (img, fname) ∈ saves evs →
         np.item (nib.dataobj img) [1; 0] = Some 0%Z) ∧
    (Qc_of_Z 2 ≠ Q2Qc 0 →
       ∃ k img fname,
         saves evs !! k = Some (img, fname) ∧
         np.item (nib.dataobj img) [1; 0] = Some 1%Z ∧
         ∀ k' img' fname', saves evs !! k' = Some (img', fname') → k' ≠ k →
           np.item (nib.dataobj img') [1; 0] = Some 0%Z).
Proof.
  apply (auto_masks_partition example_fs "seg.nii.gz" "out_" example_seg
           [1; 0] (Qc_of_Z 2)); vm_compute; reflexivity.
Defined.

(** ** The file system after a complete run *)

Lemma fs_after_full_mask (seg_nii : nib.Nifti1Image Qc) (out_prefix : string)
    (labels : list pynum) (fs : gmap string nib.file) (L : pynum) :
  (∀ L', L' ∈ labels → int L' = int L → float L' = float L) →
  L ∈ labels →
  fs_after fs (label_loop seg_nii out_prefix labels
               ++ save_list out_prefix labels) !! out_fname out_prefix L
  = Some (nib.stored (out_nii seg_nii L)).
Proof.
  intros Hinj HL. rewrite fs_after_app.
  unfold save_list, fs_after at 1. simpl.
  rewrite lookup_insert_ne by apply out_list_not_fname.
  rewrite (fs_after_label_loop seg_nii out_prefix _ _
             (nib.stored (out_nii seg_nii L))).
  - rewrite decide_True; [done|]. by apply list_elem_of_fmap_2.
  - intros L' HL' Hpath. f_equal. apply out_nii_float.
    apply Hinj; [done|]. by apply out_fname_inj in Hpath.
Qed.

Lemma fs_after_full_list (seg_nii : nib.Nifti1Image Qc) (out_prefix : string)
    (labels : list pynum) (fs : gmap string nib.file) :
  fs_after fs (label_loop seg_nii out_prefix labels
               ++ save_list out_prefix labels) !! out_list out_prefix
  = Some (nib.TextFile (np.savetxt_rows labels)).
Proof.
  rewrite fs_after_app. unfold save_list, fs_after at 1. simpl.
  apply lookup_insert_eq.
Qed.

(** Labels with the same integer part have the same value, for the labels
    of a caller's list and for those of an integer-valued grid. *)
Lemma labels_of_int_inj (seg_nii : nib.Nifti1Image Qc)
    (label_list : option (list Z)) (L1 L2 : pynum) :
  (label_list = None →
   Forall is_integral (np.flat (nib.get_fdata seg_nii))) →
  L1 ∈ labels_of seg_nii label_list →
  L2 ∈ labels_of seg_nii label_list →
  int L1 = int L2 → float L1 = float L2.
Proof.
  intros Hgrid H1 H2 Hint. destruct label_list as [ll|]; simpl in *.
  - apply list_elem_of_fmap in H1 as (n1 & -> & _).
    apply list_elem_of_fmap in H2 as (n2 & -> & _).
    simpl in *. by subst.
  - specialize (Hgrid eq_refl). rewrite Forall_forall in Hgrid.
    pose proof (labels_of_in_grid seg_nii None L1 H1) as G1.
    pose proof (labels_of_in_grid seg_nii None L2 H2) as G2.
    apply list_elem_of_fmap in H1 as (x1 & -> & _).
    apply list_elem_of_fmap in H2 as (x2 & -> & _).
    simpl in *. rewrite (Hgrid x1 G1), (Hgrid x2 G2). by rewrite Hint.
Qed.

(** X5. With a caller's list, or on an integer-valued grid, no mask is lost:
    after the run the path of every processed label holds the mask of that
    label, and the manifest holds one row per processed label. *)
Theorem masks_survive (fs : gmap string nib.file)
    (seg_file out_prefix : string) (label_list : option (list Z))
    (seg_nii : nib.Nifti1Image Qc) :
  nib.load fs seg_file = Some seg_nii →
  (label_list = None →
   Forall is_integral (np.flat (nib.get_fdata seg_nii))) →
  ∃ evs,
    util_create_label_masks fs seg_file out_prefix label_list = Some evs ∧
    ∀ L, L ∈ labels_of seg_nii label_list →
      fs_after fs evs !! (out_prefix +:+ str (int L) +:+ ".nii.gz")
        = Some (nib.stored (out_nii seg_nii L)) ∧
      fs_after fs evs !! (out_prefix +:+ "List.csv")
        = Some (nib.TextFile
                  ((λ L, str (int L)) <$> labels_of seg_nii label_list)).
Proof.
  intros Hload Hgrid. eexists.
  split; [by apply util_create_label_masks_loaded|].
  intros L HL.
  rewrite create_label_masks_full.
  - split; [|apply fs_after_full_list].
    apply fs_after_full_mask; [|done].
    intros L' HL'. by apply (labels_of_int_inj seg_nii label_list).
  - right. intros Hnil. rewrite Hnil in HL. by apply elem_of_nil in HL.
Qed.

Lemma masks_survive_witness :
  ∃ evs,
    util_create_label_masks example_fs "seg.nii.gz" "out_" None = Some evs ∧
    ∀ L, L ∈ labels_of example_seg None →
      fs_after example_fs evs !! ("out_" +:+ str (int L) +:+ ".nii.gz")
        = Some (nib.stored (out_nii example_seg L)) ∧
      fs_after example_fs evs !! ("out_" +:+ "List.csv")
        = Some (nib.TextFile
                  ((λ L, str (int L)) <$> labels_of example_seg None)).
Proof.
  apply (masks_survive example_fs "seg.nii.gz" "out_" None example_seg).
  - vm_compute; reflexivity.
  - intros _. unfold is_integral.
    apply (bool_decide_unpack _). vm_compute. exact I.
Defined.

(** X6. When the input is named like the mask of a processed label of the
    caller's list, the run replaces the input by that mask; the masks are
    still those of the grid that was loaded. *)
Theorem input_overwritten (fs : gmap string nib.file) (out_prefix : string)
    (label_list : list Z) (seg_nii : nib.Nifti1Image Qc) (n : Z) :
  nib.load fs (out_prefix +:+ str n +:+ ".nii.gz") = Some seg_nii →
  n ∈ label_list →
  Qc_of_Z n ∈ np.flat (nib.get_fdata seg_nii) →
  ∃ evs,
    util_create_label_masks fs (out_prefix +:+ str n +:+ ".nii.gz")
      out_prefix (Some label_list) = Some evs ∧
    saves evs = save_of seg_nii out_prefix <$> labels_of seg_nii (Some label_list) ∧
    nib.load (fs_after fs evs) (out_prefix +:+ str n +:+ ".nii.gz")
      = Some (nib.mkNifti1Image
                (np.map (λ x, if decide (x = Qc_of_Z n)
                              then Qc_of_Z 1 else Qc_of_Z 0)
                        (nib.get_fdata seg_nii))
                (nib.affine seg_nii) (nib.header seg_nii)).
Proof.
  intros Hload Hn Hgrid. eexists.
  split; [by apply util_create_label_masks_loaded|].
  split; [apply saves_create_label_masks|].
  assert (HL : PyInt n ∈ labels_of seg_nii (Some label_list)).
  { simpl. rewrite labels_explicit_filter. apply list_elem_of_fmap_2.
    by apply list_elem_of_filter. }
  rewrite create_label_masks_full.
  2:{ right. intros Hnil. rewrite Hnil in HL. by apply elem_of_nil in HL. }
  unfold nib.load.
  change (out_prefix +:+ str n +:+ ".nii.gz")
    with (out_fname out_prefix (PyInt n)).
  rewrite fs_after_full_mask; [|
    intros L' HL'; by apply (labels_of_int_inj seg_nii (Some label_list)) | done].
  unfold nib.stored, out_nii, np.astype_int, np.eq_scalar, np.map. simpl.
  do 3 f_equal. rewrite <-!list_fmap_compose.
  apply list_fmap_ext. intros i x _. simpl.
  case_bool_decide; case_decide; done.
Qed.

Lemma input_overwritten_witness :
  ∃ evs,
    util_create_label_masks example_clash_fs ("seg_" +:+ str 1 +:+ ".nii.gz")
      "seg_" (Some [2; 1]%Z) = Some evs ∧
    saves evs
      = save_of example_seg "seg_" <$> labels_of example_seg (Some [2; 1]%Z) ∧
    nib.load (fs_after example_clash_fs evs) ("seg_" +:+ str 1 +:+ ".nii.gz")
      = Some (nib.mkNifti1Image
                (np.map (λ x, if decide (x = Qc_of_Z 1)
                              then Qc_of_Z 1 else Qc_of_Z 0)
                        (nib.get_fdata example_seg))
                (nib.affine example_seg) (nib.header example_seg)).
Proof.
  apply (input_overwritten example_clash_fs "seg_" [2; 1]%Z example_seg 1%Z).
  - vm_compute; reflexivity.
  - apply (bool_decide_unpack _). vm_compute. exact I.
  - apply (bool_decide_unpack _). vm_compute. exact I.
Defined.

(** ** Equivalent calls *)

Lemma filter_all {A} (P : A → Prop) `{∀ x, Decision (P x)} (l : list A) :
  Forall P l → filter P l = l.
Proof.
  induction 1 as [|x l Hx Hl IH]; [done|].
  by rewrite filter_cons_True, IH.
Qed.

Lemma process_label_int (seg_nii : nib.Nifti1Image Qc) (out_prefix : string)
    (L : pynum) :
  float L = Qc_of_Z (int L) →
  process_label seg_nii out_prefix (PyInt (int L))
  = process_label seg_nii out_prefix L.
Proof.
  intros HL. unfold process_label, out_fname. simpl.
  by rewrite (out_nii_float seg_nii (PyInt (int L)) L).
Qed.

Lemma label_loop_int (seg_nii : nib.Nifti1Image Qc) (out_prefix : string)
    (labels : list pynum) :
  Forall (λ L, float L = Qc_of_Z (int L)) labels →
  label_loop seg_nii out_prefix ((λ L, PyInt (int L)) <$> labels)
  = label_loop seg_nii out_prefix labels.
Proof.
  induction 1 as [|L labels HL _ IH]; [done|].
  rewrite fmap_cons. cbn [label_loop]. by rewrite IH, process_label_int.
Qed.

(** X7. On an integer-valued grid with some value other than 0, calling
    without a label list is the same as calling with the list of the grid's
    distinct values other than 0 in ascending order: same events, in the
    same order. *)
Theorem auto_as_explicit (fs : gmap string nib.file)
    (seg_file out_prefix : string) (seg_nii : nib.Nifti1Image Qc) :
  nib.load fs seg_file = Some seg_nii →
  Forall is_integral (np.flat (nib.get_fdata seg_nii)) →
  labels_of seg_nii None ≠ [] →
  util_create_label_masks fs seg_file out_prefix
    (Some (int <$> labels_of seg_nii None))
  = util_create_label_masks fs seg_file out_prefix None.
Proof.
  intros Hload Hgrid Hne.
  rewrite !(util_create_label_masks_loaded _ _ _ _ seg_nii) by done.
  f_equal.
  assert (Hval : Forall (λ L, float L = Qc_of_Z (int L))
                   (labels_of seg_nii None)).
  { rewrite Forall_forall in Hgrid. apply Forall_forall. intros L HL.
    pose proof (labels_of_in_grid seg_nii None L HL) as G.
    simpl in HL. apply list_elem_of_fmap in HL as (x & -> & _).
    simpl in *. by apply Hgrid. }
  assert (Hlabels : labels_of seg_nii (Some (int <$> labels_of seg_nii None))
                    = (λ L, PyInt (int L)) <$> labels_of seg_nii None).
  { cbn [labels_of]. rewrite labels_explicit_filter, filter_all.
    - by rewrite <-list_fmap_compose.
    - rewrite Forall_fmap. rewrite Forall_forall in Hval.
      apply Forall_forall. intros L HL. simpl. rewrite <-(Hval L HL).
      by apply (labels_of_in_grid seg_nii None). }
  rewrite (create_label_masks_full seg_nii out_prefix None) by (by left).
  rewrite create_label_masks_full.
  2:{ right. rewrite Hlabels. intros Hnil. by apply fmap_nil_inv in Hnil. }
  rewrite Hlabels, label_loop_int by done.
  f_equal. unfold save_list, np.savetxt_rows.
  by rewrite <-list_fmap_compose.
Qed.

Lemma auto_as_explicit_witness :
  util_create_label_masks example_fs "seg.nii.gz" "out_"
    (Some (int <$> labels_of example_seg None))
  = util_create_label_masks example_fs "seg.nii.gz" "out_" None.
Proof.
  apply (auto_as_explicit example_fs "seg.nii.gz" "out_" example_seg).
  - vm_compute; reflexivity.
  - unfold is_integral. apply (bool_decide_unpack _). vm_compute. exact I.
  - vm_compute. discriminate.
Defined.

(** X8. The order of the caller's list matters to the order of the events
    and of the manifest rows only: two lists that are permutations of each
    other lead to the same saves up to order and to the same files, the
    manifest apart. *)
Theorem label_order_irrelevant (fs : gmap string nib.file)
    (seg_file out_prefix : string) (l l' : list Z)
    (seg_nii : nib.Nifti1Image Qc) :
  nib.load fs seg_file = Some seg_nii →
  l ≡ₚ l' →
  ∃ evs evs',
    util_create_label_masks fs seg_file out_prefix (Some l) = Some evs ∧
    util_create_label_masks fs seg_file out_prefix (Some l') = Some evs' ∧
    saves evs ≡ₚ saves evs' ∧
    ∀ p, p ≠ out_prefix +:+ "List.csv" →
         fs_after fs evs !! p = fs_after fs evs' !! p.
Proof.
  intros Hload Hperm. eexists _, _.
  split; [by apply util_create_label_masks_loaded|].
  split; [by apply util_create_label_masks_loaded|].
  assert (HP : labels_of seg_nii (Some l) ≡ₚ labels_of seg_nii (Some l')).
  { simpl. rewrite !labels_explicit_filter. by rewrite Hperm. }
  split; [by rewrite !saves_create_label_masks, HP|].
  intros p Hp.
  destruct (decide (labels_of seg_nii (Some l) = [])) as [Hnil|Hne].
  - assert (labels_of seg_nii (Some l') = []) as Hnil'.
    { symmetry. apply Permutation_nil_l. by rewrite <-Hnil. }
    by rewrite !create_label_masks_early.
  - assert (labels_of seg_nii (Some l') ≠ []) as Hne'.
    { intros Hnil'. apply Hne. apply Permutation_nil_r. by rewrite <-Hnil'. }
    rewrite !create_label_masks_full by (by right).
    rewrite !fs_after_app. unfold save_list, fs_after at 1 3. simpl.
    rewrite !lookup_insert_ne by done.
    destruct (decide (p ∈ out_fname out_prefix <$> labels_of seg_nii (Some l)))
      as [Hin|Hout].
    + apply list_elem_of_fmap in Hin as (L & -> & HL).
      assert (HX : ∀ ls, ls ≡ₚ labels_of seg_nii (Some l) →
        fs_after fs (label_loop seg_nii out_prefix ls)
          !! out_fname out_prefix L
        = Some (nib.stored (out_nii seg_nii L))).
      { intros ls Hls.
        rewrite (fs_after_label_loop seg_nii out_prefix _ _
                   (nib.stored (out_nii seg_nii L))).
        - rewrite decide_True; [done|].
          apply list_elem_of_fmap_2. by rewrite Hls.
        - intros L' HL' Hpath. f_equal. apply out_nii_float.
          rewrite Hls in HL'.
          apply (labels_of_int_inj seg_nii (Some l)); [done..|].
          by apply out_fname_inj in Hpath. }
      by rewrite !HX.
    + rewrite !fs_after_frame; [done|..];
        rewrite paths_written_label_loop; [by rewrite <-HP|done].
Qed.

Lemma label_order_irrelevant_witness :
  ∃ evs evs',
    util_create_label_masks example_fs "seg.nii.gz" "out_" (Some [2; 5; 1]%Z)
      = Some evs ∧
    util_create_label_masks example_fs "seg.nii.gz" "out_" (Some [1; 2; 5]%Z)
      = Some evs' ∧
    saves evs ≡ₚ saves evs' ∧
    ∀ p, p ≠ "out_" +:+ "List.csv" →
         fs_after example_fs evs !! p = fs_after example_fs evs' !! p.
Proof.
  apply (label_order_irrelevant example_fs "seg.nii.gz" "out_"
           [2; 5; 1]%Z [1; 2; 5]%Z example_seg).
  - vm_compute; reflexivity.
  - apply (bool_decide_unpack _). vm_compute. exact I.
Defined.

(** ** The manifest *)

Lemma Qclt_of_Z (a b : Z) : Qclt (Qc_of_Z a) (Qc_of_Z b) ↔ (a < b)%Z.
Proof. rewrite Qclt_of_Z_l. simpl. by rewrite Z.mul_1_r. Qed.

Lemma savetxts_create_label_masks_full (seg_nii : nib.Nifti1Image Qc)
    (out_prefix : string) (label_list : option (list Z)) :
  label_list = None ∨ labels_of seg_nii label_list ≠ [] →
  savetxts (create_label_masks seg_nii out_prefix label_list)
  = [(out_list out_prefix, np.savetxt_rows (labels_of seg_nii label_list))].
Proof.
  intros H. rewrite create_label_masks_full by done.
  unfold savetxts. rewrite omap_app.
  fold (savetxts (label_loop seg_nii out_prefix (labels_of seg_nii label_list))).
  by rewrite savetxts_label_loop.
Qed.

(** X9. Without a label list, on an integer-valued grid, the manifest lists
    exactly the integers of the grid other than 0, each once, in strictly
    ascending order. *)
Theorem auto_manifest_sorted (fs : gmap string nib.file)
    (seg_file out_prefix : string) (seg_nii : nib.Nifti1Image Qc) :
  nib.load fs seg_file = Some seg_nii →
  Forall is_integral (np.flat (nib.get_fdata seg_nii)) →
  ∃ evs (ns : list Z),
    util_create_label_masks fs seg_file out_prefix None = Some evs ∧
    savetxts evs = [(out_prefix +:+ "List.csv", str <$> ns)] ∧
    StronglySorted Z.lt ns ∧
    ∀ n, n ∈ ns ↔ Qc_of_Z n ∈ np.flat (nib.get_fdata seg_nii) ∧ n ≠ 0%Z.
Proof.
  intros Hload Hgrid.
  set (ls := np.nonzero (np.unique (nib.get_fdata seg_nii))).
  exists (create_label_masks seg_nii out_prefix None), (Qc_trunc <$> ls).
  split; [by apply util_create_label_masks_loaded|].
  rewrite Forall_forall in Hgrid.
  assert (Hint : ∀ x, x ∈ ls → x = Qc_of_Z (Qc_trunc x)).
  { intros x [Hx _]%elem_of_labels_auto. by apply Hgrid. }
  split; [|split].
  - rewrite savetxts_create_label_masks_full by (by left).
    simpl. unfold labels_auto, np.savetxt_rows. fold ls.
    by rewrite <-!list_fmap_compose.
  - assert (Hs : StronglySorted Qclt ls).
    { apply StronglySorted_filter, unique_ascending. }
    clear -Hs Hint. induction Hs as [|x l Hl IH Hx]; [constructor|].
    rewrite fmap_cons. constructor.
    + apply IH. intros y Hy. apply Hint. by right.
    + rewrite Forall_fmap. rewrite Forall_forall in Hx.
      apply Forall_forall. intros y Hy. simpl.
      apply Qclt_of_Z. rewrite <-(Hint x), <-(Hint y); [|by right|by left].
      by apply Hx.
  - intros n. rewrite list_elem_of_fmap. split.
    + intros (x & -> & Hx). pose proof (Hint x Hx) as Ex.
      apply elem_of_labels_auto in Hx as [Hx Hne].
      rewrite <-Ex. split; [done|].
      intros Hz. apply Hne. rewrite Ex, Hz. by apply Qc_is_canon.
    + intros [Hn Hne]. exists (Qc_of_Z n).
      split; [by rewrite Qc_trunc_of_Z|].
      apply elem_of_labels_auto. split; [done|].
      intros Hz. apply Hne. apply Qc_of_Z_inj.
      rewrite Hz. by apply Qc_is_canon.
Qed.

Lemma auto_manifest_sorted_witness :
  ∃ evs (ns : list Z),
    util_create_label_masks example_fs "seg.nii.gz" "out_" None = Some evs ∧
    savetxts evs = [("out_" +:+ "List.csv", str <$> ns)] ∧
    StronglySorted Z.lt ns ∧
    ∀ n, n ∈ ns ↔ Qc_of_Z n ∈ np.flat (nib.get_fdata example_seg) ∧ n ≠ 0%Z.
Proof.
  apply (auto_manifest_sorted example_fs "seg.nii.gz" "out_" example_seg).
  - vm_compute; reflexivity.
  - unfold is_integral. apply (bool_decide_unpack _). vm_compute. exact I.
Defined.

(** X10. With a caller's list the manifest is never empty: the run writes
    either nothing at all or at least one mask and a manifest with at least
    one row, whose number of rows is the number of masks saved. *)
Theorem explicit_all_or_nothing (fs : gmap string nib.file)
    (seg_file out_prefix : string) (label_list : list Z)
    (seg_nii : nib.Nifti1Image Qc) :
  nib.load fs seg_file = Some seg_nii →
  ∃ evs,
    util_create_label_masks fs seg_file out_prefix (Some label_list) = Some evs ∧
    (paths_written evs = [] ∨
     ∃ rows, savetxts evs = [(out_prefix +:+ "List.csv", rows)] ∧
             rows ≠ [] ∧ length rows = length (saves evs)).
Proof.
  intros Hload. eexists.
  split; [by apply util_create_label_masks_loaded|].
  destruct (decide (labels_of seg_nii (Some label_list) = [])) as [Hnil|Hne].
  - left. by rewrite create_label_masks_early.
  - right. eexists. split; [|split].
    + by apply savetxts_create_label_masks_full; right.
    + unfold np.savetxt_rows. intros H. by apply fmap_nil_inv in H.
    + rewrite saves_create_label_masks. unfold np.savetxt_rows.
      by rewrite !length_fmap.
Qed.

Lemma explicit_all_or_nothing_witness :
  ∃ evs,
    util_create_label_masks example_fs "seg.nii.gz" "out_" (Some [2; 5]%Z)
      = Some evs ∧
    (paths_written evs = [] ∨
     ∃ rows, savetxts evs = [("out_" +:+ "List.csv", rows)] ∧
             rows ≠ [] ∧ length rows = length (saves evs)).
Proof.
  apply (explicit_all_or_nothing example_fs "seg.nii.gz" "out_" [2; 5]%Z
           example_seg).
  vm_compute; reflexivity.
Defined.
